(** * Spotlight: explicit-feedback matrix factorisation

    A shallow embedding of the code shown in [examples/movielens_explicit.ipynb]:
    [BilinearNet.__init__], [BilinearNet.forward] and [regression_loss], together
    with the cell that seeds a generator and calls the train/test splitter.

    Ratings, embeddings and biases are real numbers ([R]); the 32-bit floats of
    the tensor backend are abstracted, as the specification does when it speaks
    of sequences of reals.  Tensor operations follow the backend's broadcasting
    rules: a reduction drops the axis it reduces, and an operand of size one
    along an axis is repeated along it. *)

From Stdlib Require Import List Arith PeanoNat Lia Bool ZArith QArith Qround.
From Stdlib Require Import Reals Lra Permutation.
Import ListNotations.

(** ** Errors *)

(** The failures the code can raise.  [IndexOutOfRange] is the backend's error
    for an embedding lookup past the table, [DimensionMismatch] its error for
    operands whose shapes cannot be broadcast together, [AssertionFailure] a
    refusal by [assert_no_grad], [InvalidArgument] a rejected configuration
    value. *)
Inductive error : Type :=
| IndexOutOfRange
| DimensionMismatch
| InvalidArgument
| AssertionFailure.

Definition result (A : Type) : Type := (error + A)%type.

Definition ok {A : Type} (a : A) : result A := inr a.

Definition raise {A : Type} (e : error) : result A := inl e.

Definition rbind {A B : Type} (c : result A) (k : A -> result B) : result B :=
  match c with
  | inl e => inl e
  | inr a => k a
  end.

Declare Scope result_scope.
Delimit Scope result_scope with result.
Notation "x <- c ;; k" := (rbind c (fun x => k))
  (at level 61, c at next level, right associativity) : result_scope.

(** ** The tensor backend *)

Module Torch.

Local Open Scope R_scope.

(** A two-dimensional tensor, as the list of its rows.  Index tensors are
    one-dimensional lists of naturals. *)
Definition tensor : Type := list (list R).

(** [tensor.sum()] over a one-dimensional slice. *)
Definition rsum (xs : list R) : R := fold_right Rplus 0 xs.

(** Elementwise binary operation on operands already brought to one size. *)
Fixpoint elementwise {A : Type} (f : A -> A -> result A) (xs ys : list A)
  : result (list A) :=
  match xs, ys with
  | [], [] => ok []
  | x :: xs', y :: ys' =>
      (z <- f x y ;; zs <- elementwise f xs' ys' ;; ok (z :: zs))%result
  | _, _ => raise DimensionMismatch
  end.

(** Two sizes along one axis can be broadcast together when they are equal or
    one of them is one. *)
Definition compatible (n m : nat) : Prop := n = m \/ n = 1%nat \/ m = 1%nat.

(** The size the backend infers along one axis from the sizes of the two
    operands: equal sizes stand, a size of one gives way to the other size,
    anything else is refused. *)
Definition broadcast_size (n m : nat) : result nat :=
  if (n =? m)%nat then ok n
  else if (n =? 1)%nat then ok m
  else if (m =? 1)%nat then ok n
  else raise DimensionMismatch.

(** An operand of size one along the axis is repeated to the inferred size;
    any other operand is left as it is. *)
Definition expand {A : Type} (n : nat) (xs : list A) : list A :=
  match xs with
  | [x] => repeat x n
  | _ => xs
  end.

(** A binary operation along one axis, with broadcasting: the size is
    inferred, both operands are expanded to it and combined position by
    position. *)
Definition broadcast {A : Type} (f : A -> A -> result A) (xs ys : list A)
  : result (list A) :=
  (n <- broadcast_size (length xs) (length ys) ;;
   elementwise f (expand n xs) (expand n ys))%result.

(** A binary operation on one-dimensional tensors. *)
Definition pointwise (op : R -> R -> R) (xs ys : list R) : result (list R) :=
  broadcast (fun x y => ok (op x y)) xs ys.

(** A binary operation on two-dimensional tensors: broadcasting along the
    rows, then along the columns of each pair of rows. *)
Definition pointwise2 (op : R -> R -> R) (a b : tensor) : result tensor :=
  broadcast (pointwise op) a b.

(** [a * b] on two-dimensional tensors. *)
Definition mul (a b : tensor) : result tensor := pointwise2 Rmult a b.

(** [a + b] on two-dimensional tensors. *)
Definition add (a b : tensor) : result tensor := pointwise2 Rplus a b.

(** A one-dimensional operand of a two-dimensional operation: shapes are
    aligned from the last axis, so its [n] elements form a single row. *)
Definition as_row (v : list R) : tensor := [v].

(** [t.sum(1)]: every row is reduced to its sum and the reduced axis is
    dropped, so an [(n, D)] tensor becomes a one-dimensional tensor of [n]
    elements. *)
Definition sum1 (t : tensor) : list R := map rsum t.

(** The shape of a two-dimensional tensor: [r] rows of [c] columns. *)
Definition shape (t : tensor) (r c : nat) : Prop :=
  length t = r /\ Forall (fun row => length row = c) t.

(** [t.view(-1, cols)]: the elements in row-major order, cut again into rows
    of [cols] elements.  Fails when the number of rows cannot be inferred. *)
Definition view (cols : nat) (t : tensor) : result tensor :=
  let flat := concat t in
  if (cols =? 0)%nat then raise DimensionMismatch
  else if (length flat mod cols =? 0)%nat then
    ok (map (fun r => firstn cols (skipn (r * cols) flat))
            (seq 0 (length flat / cols)))
  else raise DimensionMismatch.

(** The lookup of an embedding layer: row [i] of the weight matrix for every
    index [i], in order.  An index with no row is refused. *)
Fixpoint embedding (weight : tensor) (ids : list nat) : result tensor :=
  match ids with
  | [] => ok []
  | i :: ids' =>
      match nth_error weight i with
      | None => raise IndexOutOfRange
      | Some row => (rows <- embedding weight ids' ;; ok (row :: rows))%result
      end
  end.

(** A one-dimensional tensor wrapped for differentiation: its elements and
    the flag that says whether gradients flow into it.  The loss is modelled
    on one-dimensional operands, the sequences of reals of its contract. *)
Record variable : Type := {
  data : list R;
  requires_grad : bool
}.

(** A sequence of reals as the backend holds it when it is plain data. *)
Definition constant (xs : list R) : variable :=
  {| data := xs; requires_grad := false |}.

(** [t.mean()] over all elements. *)
Definition mean (xs : list R) : R := rsum xs / INR (length xs).

End Torch.

(** ** Embedding layers (spotlight.layers) *)

Module Layers.

Import Torch.
Local Open Scope R_scope.

(** An embedding layer: a weight matrix of [num_embeddings] rows and
    [embedding_dim] columns. *)
Record Embedding : Type := {
  num_embeddings : nat;
  embedding_dim : nat;
  sparse : bool;
  weight : tensor
}.

(** Modelled from the spec: [ScaledEmbedding], whose class body is not part of
    the notebook.  The weights are drawn from a zero-mean distribution scaled
    down by the number of latent dimensions; [draw r c] is the unscaled sample
    for row [r], column [c]. *)
Definition ScaledEmbedding (draw : nat -> nat -> R)
    (num_embeddings embedding_dim : nat) (sparse : bool) : Embedding :=
  {| num_embeddings := num_embeddings;
     embedding_dim := embedding_dim;
     sparse := sparse;
     weight := map (fun r => map (fun c => draw r c / INR embedding_dim)
                                 (seq 0 embedding_dim))
                   (seq 0 num_embeddings) |}.

(** Modelled from the spec: [ZeroEmbedding], whose class body is not part of
    the notebook.  Biases are initialised to zero. *)
Definition ZeroEmbedding (num_embeddings embedding_dim : nat) (sparse : bool)
  : Embedding :=
  {| num_embeddings := num_embeddings;
     embedding_dim := embedding_dim;
     sparse := sparse;
     weight := repeat (repeat 0 embedding_dim) num_embeddings |}.

End Layers.

(** ** The bilinear representation (spotlight.factorization.representations) *)

Module BilinearNet.

Import Torch.
Local Open Scope R_scope.

(** The attributes [__init__] sets on [self]: the latent parameter table. *)
Record t : Type := {
  embedding_dim : nat;
  user_embeddings : Layers.Embedding;
  item_embeddings : Layers.Embedding;
  user_biases : Layers.Embedding;
  item_biases : Layers.Embedding
}.

(** [__init__(self, num_users, num_items, embedding_dim=32, sparse=False)].
    An omitted keyword argument is [None].  [draw_users] and [draw_items] are
    the samples the two scaled tables are initialised from. *)
Definition __init__ (draw_users draw_items : nat -> nat -> R)
    (num_users num_items : nat)
    (embedding_dim : option nat) (sparse : option bool) : t :=
  let embedding_dim := match embedding_dim with Some d => d | None => 32%nat end in
  let sparse := match sparse with Some b => b | None => false end in
  {| embedding_dim := embedding_dim;
     user_embeddings :=
       Layers.ScaledEmbedding draw_users num_users embedding_dim sparse;
     item_embeddings :=
       Layers.ScaledEmbedding draw_items num_items embedding_dim sparse;
     user_biases := Layers.ZeroEmbedding num_users 1 sparse;
     item_biases := Layers.ZeroEmbedding num_items 1 sparse |}.

(** Methods run against [self]: they may fail, and they hand back the object
    they ran on, so that a write to an attribute would be visible. *)
Definition method (A : Type) : Type := t -> result A * t.

Definition ret {A : Type} (a : A) : method A := fun self => (ok a, self).

Definition bind {A B : Type} (c : method A) (k : A -> method B) : method B :=
  fun self =>
    match c self with
    | (inl e, self') => (inl e, self')
    | (inr a, self') => k a self'
    end.

(** [self.attr]. *)
Definition getattr {A : Type} (attr : t -> A) : method A :=
  fun self => (ok (attr self), self).

(** A backend operation: it touches no attribute of [self]. *)
Definition lift {A : Type} (c : result A) : method A := fun self => (c, self).

(** [self.layer(ids)]: the layer's lookup on its current weights. *)
Definition call (layer : t -> Layers.Embedding) (ids : list nat) : method tensor :=
  bind (getattr layer) (fun l => lift (embedding (Layers.weight l) ids)).

Declare Scope method_scope.
Delimit Scope method_scope with method.
Notation "x <- c ;; k" := (bind c (fun x => k))
  (at level 61, c at next level, right associativity) : method_scope.

(** [forward(self, user_ids, item_ids)]. *)
Definition forward (user_ids item_ids : list nat) : method tensor :=
  (user_embedding <- call user_embeddings user_ids ;;
   item_embedding <- call item_embeddings item_ids ;;
   D <- getattr embedding_dim ;;
   user_embedding <- lift (view D user_embedding) ;;
   D <- getattr embedding_dim ;;
   item_embedding <- lift (view D item_embedding) ;;
   user_bias <- call user_biases user_ids ;;
   user_bias <- lift (view 1 user_bias) ;;
   item_bias <- call item_biases item_ids ;;
   item_bias <- lift (view 1 item_bias) ;;
   prod <- lift (mul user_embedding item_embedding) ;;
   let dot := sum1 prod in
   s <- lift (add (as_row dot) user_bias) ;;
   lift (add s item_bias))%method.

(** The dot product of two latent vectors. *)
Definition dot (u v : list R) : R :=
  rsum (map (fun p => fst p * snd p) (combine u v)).

(** Row [i] of a layer's weight matrix, and the scalar a bias layer holds for
    index [i]. *)
Definition row (l : Layers.Embedding) (i : nat) : list R :=
  nth i (Layers.weight l) [].

Definition bias (l : Layers.Embedding) (i : nat) : R := nth 0 (row l i) 0.

(** The prediction for the pair [(u, i)]. *)
Definition prediction (self : t) (u i : nat) : R :=
  dot (row (user_embeddings self) u) (row (item_embeddings self) i)
  + bias (user_biases self) u + bias (item_biases self) i.

(** The shape of a table: [n] rows of [d] columns. *)
Definition table_shape (l : Layers.Embedding) (n d : nat) : Prop :=
  length (Layers.weight l) = n
  /\ Forall (fun r => length r = d) (Layers.weight l).

(** The tables hold one row per user and one per item. *)
Definition sized (self : t) (num_users num_items : nat) : Prop :=
  length (Layers.weight (user_embeddings self)) = num_users
  /\ length (Layers.weight (item_embeddings self)) = num_items
  /\ length (Layers.weight (user_biases self)) = num_users
  /\ length (Layers.weight (item_biases self)) = num_items.

(** The shape [__init__] gives the latent parameter table and training keeps:
    embeddings of the positive dimension [embedding_dim], one scalar per bias. *)
Definition well_shaped (self : t) (num_users num_items : nat) : Prop :=
  (0 < embedding_dim self)%nat
  /\ table_shape (user_embeddings self) num_users (embedding_dim self)
  /\ table_shape (item_embeddings self) num_items (embedding_dim self)
  /\ table_shape (user_biases self) num_users 1
  /\ table_shape (item_biases self) num_items 1.

(** The table of the scoring scenario: one user, one item, two latent
    dimensions. *)
Definition scenario : t :=
  {| embedding_dim := 2;
     user_embeddings :=
       {| Layers.num_embeddings := 1; Layers.embedding_dim := 2;
          Layers.sparse := false; Layers.weight := [[1; 2]] |};
     item_embeddings :=
       {| Layers.num_embeddings := 1; Layers.embedding_dim := 2;
          Layers.sparse := false; Layers.weight := [[3; 4]] |};
     user_biases :=
       {| Layers.num_embeddings := 1; Layers.embedding_dim := 1;
          Layers.sparse := false; Layers.weight := [[1 / 2]] |};
     item_biases :=
       {| Layers.num_embeddings := 1; Layers.embedding_dim := 1;
          Layers.sparse := false; Layers.weight := [[- (1 / 2)]] |} |}.

(** A table for two users and two items, with two latent dimensions. *)
Definition batch_net : t :=
  {| embedding_dim := 2;
     user_embeddings :=
       {| Layers.num_embeddings := 2; Layers.embedding_dim := 2;
          Layers.sparse := false; Layers.weight := [[1; 2]; [0; 1]] |};
     item_embeddings :=
       {| Layers.num_embeddings := 2; Layers.embedding_dim := 2;
          Layers.sparse := false; Layers.weight := [[2; 2]; [1; 4]] |};
     user_biases :=
       {| Layers.num_embeddings := 2; Layers.embedding_dim := 1;
          Layers.sparse := false; Layers.weight := [[0]; [1]] |};
     item_biases :=
       {| Layers.num_embeddings := 2; Layers.embedding_dim := 1;
          Layers.sparse := false; Layers.weight := [[0]; [0]] |} |}.

(** A fixed table of samples, and the model [__init__] makes of it for two
    users, three items and two latent dimensions. *)
Definition sample_draw (r c : nat) : R := INR r - INR c.

Definition sample_net : t :=
  __init__ sample_draw sample_draw 2 3 (Some 2%nat) None.

End BilinearNet.

(** ** The loss (spotlight.losses) *)

Module Losses.

Import Torch.
Local Open Scope R_scope.

(** Modelled from the spec: [assert_no_grad], the helper of
    spotlight.torch_utils whose body is not part of the notebook.  The spec
    only says that the observed values are constants under differentiation:
    on such a tensor the helper passes, which is all the results on the loss
    rely on.  That it refuses a tensor into which gradients flow is read off
    its name alone. *)
Definition assert_no_grad (v : variable) : result unit :=
  if requires_grad v then raise AssertionFailure else ok tt.

(** [regression_loss(observed_ratings, predicted_ratings)], on
    one-dimensional operands. *)
Definition regression_loss (observed_ratings predicted_ratings : variable)
  : result R :=
  (_ <- assert_no_grad observed_ratings ;;
   diff <- pointwise Rminus (data observed_ratings) (data predicted_ratings) ;;
   ok (mean (map (fun d => d ^ 2) diff)))%result.

End Losses.

(** ** The splitter (spotlight.cross_validation) *)

Module CrossValidation.

(** One (user, item, rating) triplet. *)
Record Interaction : Type := {
  user_index : nat;
  item_index : nat;
  rating : R
}.

(** The interaction store: the triplets in order, and the sizes of the two
    index spaces, fixed at load time. *)
Record Interactions : Type := {
  num_users : nat;
  num_items : nat;
  interactions : list Interaction
}.

Definition len (S : Interactions) : nat := length (interactions S).

(** The store made of the interactions at the given positions, in that order;
    the index spaces are kept. *)
Definition select (S : Interactions) (positions : list nat) : Interactions :=
  {| num_users := num_users S;
     num_items := num_items S;
     interactions :=
       flat_map (fun p => match nth_error (interactions S) p with
                          | Some x => [x]
                          | None => []
                          end) positions |}.

(** [round]: to the nearest integer, a tie going to the even neighbour. *)
Definition round (q : Q) : Z :=
  let f := Qfloor q in
  match (q - inject_Z f ?= 1 # 2)%Q with
  | Lt => f
  | Gt => (f + 1)%Z
  | Eq => if Z.even f then f else (f + 1)%Z
  end.

(** [round(test_fraction * len(store))]. *)
Definition test_count (test_fraction : Q) (n : nat) : nat :=
  Z.to_nat (round (test_fraction * inject_Z (Z.of_nat n))).

(** [test_fraction] lies strictly between 0 and 1. *)
Definition in_unit_interval (f : Q) : bool :=
  match (0 ?= f)%Q, (f ?= 1)%Q with
  | Lt, Lt => true
  | _, _ => false
  end.

Section Splitter.

(** The pseudorandom generator: its state, the generator a seed creates
    ([np.random.RandomState(seed)]), and the permutation of the positions
    [0 .. n-1] it draws, which advances the state. *)
Variable RandomState : Type.
Variable seeded : Z -> RandomState.
Variable permutation : RandomState -> nat -> list nat * RandomState.

(** Modelled from the spec: [random_train_test_split], which the notebook
    imports and calls but whose body is not part of it.  A permutation of
    the positions is drawn; its first [round(test_fraction * len(store))]
    positions go to test, the remainder to train.  An empty store or a
    fraction outside (0, 1) is refused. *)
Definition random_train_test_split (S : Interactions) (test_fraction : Q)
    (random_state : RandomState)
  : result (Interactions * Interactions) * RandomState :=
  if in_unit_interval test_fraction && negb (len S =? 0)%nat then
    let (positions, random_state') := permutation random_state (len S) in
    let k := test_count test_fraction (len S) in
    (ok (select S (skipn k positions), select S (firstn k positions)),
     random_state')
  else (raise InvalidArgument, random_state).

(** Modelled from the spec: [split(store, test_fraction, random_seed)], the
    splitter run on the generator the seed creates, as in the notebook's
    cell. *)
Definition split (S : Interactions) (test_fraction : Q) (random_seed : Z)
  : result (Interactions * Interactions) :=
  fst (random_train_test_split S test_fraction (seeded random_seed)).

(** Generator objects live in a store and are passed by reference: the
    store lists their current states by address. *)
Definition store : Type := list RandomState.


(** [random_train_test_split(dataset, test_percentage, random_state=ref)]:
    the splitter draws from the generator object behind [ref] and leaves it
    advanced. *)
Definition call_random_train_test_split (S : Interactions) (test_fraction : Q)
    (ref : nat) (h : store)
  : result (Interactions * Interactions) * store :=
  match nth_error h ref with
  | Some g =>
      let (res, g') := random_train_test_split S test_fraction g in
      (res, firstn ref h ++ g' :: skipn (Datatypes.S ref) h)
  | None => (raise InvalidArgument, h)
  end.


End Splitter.

(** A concrete generator: a linear congruential state, and the shuffle that
    inserts position [m] at a drawn place among the positions below it. *)
Definition lcg_next (g : Z) : Z := ((g * 1103515245 + 12345) mod 2147483648)%Z.

Definition lcg_seeded (seed : Z) : Z := (seed mod 2147483648)%Z.

Definition insert_at {A : Type} (k : nat) (x : A) (l : list A) : list A :=
  firstn k l ++ x :: skipn k l.

Fixpoint lcg_permutation (g : Z) (n : nat) : list nat * Z :=
  match n with
  | O => ([], g)
  | S m =>
      let (p, g') := lcg_permutation g m in
      (insert_at (Z.to_nat (g' mod Z.of_nat (S m))) m p, lcg_next g')
  end.

(** The store of the splitting scenario. *)
Definition scenario : Interactions :=
  {| num_users := 4;
     num_items := 3;
     interactions :=
       [ {| user_index := 0; item_index := 0; rating := 5 |};
         {| user_index := 1; item_index := 1; rating := 3 |};
         {| user_index := 2; item_index := 2; rating := 4 |};
         {| user_index := 3; item_index := 0; rating := 2 |} ] |}.

End CrossValidation.

(** * Properties *)

(** ** The result monad and the backend *)

Section Backend.

Import Torch.
Local Open Scope R_scope.

Lemma elementwise_total {A : Type} (f : A -> A -> result A) (g : A -> A -> A) :
  forall xs ys,
    length xs = length ys ->
    (forall x y, In (x, y) (combine xs ys) -> f x y = ok (g x y)) ->
    elementwise f xs ys
    = ok (map (fun p => g (fst p) (snd p)) (combine xs ys)).
Proof.
  induction xs as [|x xs IH]; intros [|y ys] Hlen Hf; simpl in *;
    try discriminate; [reflexivity|].
  rewrite (Hf x y) by now left.
  rewrite IH; [reflexivity | lia | intros; apply Hf; now right].
Qed.

(** Operands of one size along an axis are combined position by position. *)
Lemma expand_same {A : Type} (n : nat) (xs : list A) :
  length xs = n -> expand n xs = xs.
Proof.
  destruct xs as [|x [|y xs]]; simpl; intros <-; reflexivity.
Qed.

Lemma broadcast_size_same (n : nat) : broadcast_size n n = ok n.
Proof. unfold broadcast_size. now rewrite Nat.eqb_refl. Qed.

Lemma broadcast_size_one_l (m : nat) : broadcast_size 1 m = ok m.
Proof.
  unfold broadcast_size. destruct (Nat.eqb_spec 1 m) as [<-|_]; reflexivity.
Qed.

Lemma broadcast_size_one_r (n : nat) : broadcast_size n 1 = ok n.
Proof.
  unfold broadcast_size. destruct (Nat.eqb_spec n 1) as [->|_]; reflexivity.
Qed.

Lemma broadcast_size_incompatible (n m : nat) :
  ~ compatible n m -> broadcast_size n m = raise DimensionMismatch.
Proof.
  unfold compatible, broadcast_size. intros H.
  destruct (Nat.eqb_spec n m); [tauto|].
  destruct (Nat.eqb_spec n 1); [tauto|].
  destruct (Nat.eqb_spec m 1); [tauto|reflexivity].
Qed.

Lemma broadcast_size_compatible (n m : nat) :
  compatible n m ->
  exists k, broadcast_size n m = ok k
            /\ (n = k \/ n = 1%nat) /\ (m = k \/ m = 1%nat).
Proof.
  unfold compatible, broadcast_size. intros H.
  destruct (Nat.eqb_spec n m) as [->|Hnm]; [exists m; auto|].
  destruct (Nat.eqb_spec n 1) as [->|Hn]; [exists m; auto|].
  destruct (Nat.eqb_spec m 1) as [->|Hm]; [exists n; auto|].
  exfalso. tauto.
Qed.

Lemma broadcast_same {A : Type} (f : A -> A -> result A) (xs ys : list A) :
  length xs = length ys -> broadcast f xs ys = elementwise f xs ys.
Proof.
  intros Hlen. unfold broadcast.
  rewrite Hlen, broadcast_size_same. simpl.
  now rewrite !expand_same.
Qed.

Lemma pointwise_total (op : R -> R -> R) (xs ys : list R) :
  length xs = length ys ->
  pointwise op xs ys = ok (map (fun p => op (fst p) (snd p)) (combine xs ys)).
Proof.
  intros Hlen. unfold pointwise. rewrite broadcast_same by assumption.
  now apply elementwise_total.
Qed.

(** Two tensors of the same shape combine row by row. *)
Lemma rows_total (op : R -> R -> R) (d : nat) (a b : tensor) :
  length a = length b ->
  Forall (fun r => length r = d) a ->
  Forall (fun r => length r = d) b ->
  pointwise2 op a b
  = ok (map (fun p => map (fun q => op (fst q) (snd q))
                          (combine (fst p) (snd p)))
            (combine a b)).
Proof.
  intros Hlen Ha Hb. unfold pointwise2.
  rewrite broadcast_same by assumption.
  apply (elementwise_total (pointwise op)
           (fun x y => map (fun q => op (fst q) (snd q)) (combine x y)));
    [assumption|].
  intros x y Hin. apply pointwise_total.
  rewrite Forall_forall in Ha, Hb.
  rewrite (Ha x) by (eapply in_combine_l; eassumption).
  rewrite (Hb y) by (eapply in_combine_r; eassumption).
  reflexivity.
Qed.

(** A single element on the right is combined with every element on the
    left. *)
Lemma elementwise_repeat_r (op : R -> R -> R) (y : R) :
  forall xs : list R,
    elementwise (fun x y => ok (op x y)) xs (repeat y (length xs))
    = ok (map (fun x => op x y) xs).
Proof.
  induction xs as [|x xs IH]; simpl; [reflexivity|].
  now rewrite IH.
Qed.

Lemma pointwise_scalar_r (op : R -> R -> R) (xs : list R) (y : R) :
  pointwise op xs [y] = ok (map (fun x => op x y) xs).
Proof.
  unfold pointwise, broadcast. simpl length.
  rewrite broadcast_size_one_r. simpl.
  rewrite expand_same by reflexivity.
  apply elementwise_repeat_r.
Qed.

(** A column on the right adds its [j]-th scalar to row [j]. *)
Lemma rows_column_r (op : R -> R -> R) :
  forall (a : tensor) (cs : list R),
    length a = length cs ->
    pointwise2 op a (map (fun c => [c]) cs)
    = ok (map (fun p => map (fun x => op x (snd p)) (fst p)) (combine a cs)).
Proof.
  intros a cs Hlen. unfold pointwise2.
  rewrite broadcast_same by now rewrite length_map.
  revert cs Hlen. induction a as [|r a IH]; intros [|c cs] Hlen; simpl in *;
    try discriminate; [reflexivity|].
  rewrite pointwise_scalar_r. simpl.
  rewrite IH by lia. reflexivity.
Qed.

(** A single row on the left against a column on the right: every scalar of
    the column gets a row of its own. *)
Lemma row_column (op : R -> R -> R) (v : list R) (cs : list R) :
  pointwise2 op (as_row v) (map (fun c => [c]) cs)
  = ok (map (fun c => map (fun x => op x c) v) cs).
Proof.
  unfold pointwise2, broadcast, as_row. simpl length.
  rewrite broadcast_size_one_l. simpl rbind.
  rewrite (expand_same (length (map (fun c => [c]) cs))) by reflexivity.
  rewrite length_map. cbn [expand].
  induction cs as [|c cs IH]; simpl; [reflexivity|].
  rewrite pointwise_scalar_r. simpl.
  now rewrite IH.
Qed.

(** The lookup either finds every index or refuses the batch. *)
Lemma embedding_cases (weight : tensor) :
  forall ids,
    (Forall (fun i => (i < length weight)%nat) ids
     /\ embedding weight ids = ok (map (fun i => nth i weight []) ids))
    \/ (Exists (fun i => (length weight <= i)%nat) ids
        /\ embedding weight ids = raise IndexOutOfRange).
Proof.
  induction ids as [|i ids IH]; simpl.
  - left. split; [constructor | reflexivity].
  - destruct (nth_error weight i) as [r|] eqn:Hi.
    + assert (Hlt : (i < length weight)%nat)
        by (apply nth_error_Some; congruence).
      destruct IH as [[Hall ->] | [Hex ->]]; simpl.
      * left. split; [now constructor|].
        now rewrite (nth_error_nth _ _ [] Hi).
      * right. split; [now apply Exists_cons_tl | reflexivity].
    + right. split; [|reflexivity].
      apply Exists_cons_hd. now apply nth_error_None.
Qed.

Lemma embedding_in_range (weight : tensor) (ids : list nat) :
  Forall (fun i => (i < length weight)%nat) ids ->
  embedding weight ids = ok (map (fun i => nth i weight []) ids).
Proof.
  intros Hall. destruct (embedding_cases weight ids) as [[_ H] | [Hex _]];
    [assumption|].
  exfalso. rewrite Exists_exists in Hex. destruct Hex as [i [Hin Hle]].
  rewrite Forall_forall in Hall. specialize (Hall i Hin). lia.
Qed.

Lemma embedding_out_of_range (weight : tensor) (ids : list nat) :
  Exists (fun i => (length weight <= i)%nat) ids ->
  embedding weight ids = raise IndexOutOfRange.
Proof.
  intros Hex. destruct (embedding_cases weight ids) as [[Hall _] | [_ H]];
    [|assumption].
  exfalso. rewrite Exists_exists in Hex. destruct Hex as [i [Hin Hle]].
  rewrite Forall_forall in Hall. specialize (Hall i Hin). lia.
Qed.

(** Rows looked up in a table have the table's width. *)
Lemma lookup_rows (weight : tensor) (d : nat) (ids : list nat) :
  Forall (fun r => length r = d) weight ->
  Forall (fun i => (i < length weight)%nat) ids ->
  Forall (fun r => length r = d) (map (fun i => nth i weight []) ids).
Proof.
  intros Hw Hids. rewrite Forall_forall in *. intros r Hr.
  apply in_map_iff in Hr. destruct Hr as [i [<- Hin]].
  apply Hw, nth_In, Hids, Hin.
Qed.

(** Cutting the elements of [n] rows of width [cols] into rows of width
    [cols] gives the rows back. *)
Lemma rechunk (cols : nat) (t : tensor) :
  Forall (fun r => length r = cols) t ->
  length (concat t) = (length t * cols)%nat
  /\ map (fun r => firstn cols (skipn (r * cols) (concat t)))
         (seq 0 (length t)) = t.
Proof.
  induction 1 as [|r t Hr Ht [IHlen IHmap]]; simpl; [split; reflexivity|].
  split.
  - rewrite length_app, IHlen, Hr. reflexivity.
  - f_equal.
    + rewrite firstn_app, Hr, Nat.sub_diag, firstn_all2 by lia.
      apply app_nil_r.
    + rewrite <- seq_shift, map_map. rewrite <- IHmap at 2.
      apply map_ext. intros k. f_equal.
      rewrite skipn_app, skipn_all2 by (rewrite Hr; simpl; lia).
      simpl. f_equal. rewrite Hr. lia.
Qed.

Lemma view_same_width (cols : nat) (t : tensor) :
  (0 < cols)%nat ->
  Forall (fun r => length r = cols) t ->
  view cols t = ok t.
Proof.
  intros Hpos Hrows. unfold view.
  destruct (rechunk cols t Hrows) as [Hlen Hmap].
  destruct (Nat.eqb_spec cols 0) as [->|_]; [lia|].
  rewrite Hlen, Nat.Div0.mod_mul, Nat.eqb_refl, Nat.div_mul by lia.
  now rewrite Hmap.
Qed.

End Backend.

(** ** The bilinear scorer *)

Section Scoring.

Import Torch BilinearNet.
Local Open Scope R_scope.

(** The frame of a method run: [forward] hands back the object it ran on. *)
Lemma bind_frame {A B : Type} (c : method A) (k : A -> method B) :
  (forall self, snd (c self) = self) ->
  (forall a self, snd (k a self) = self) ->
  forall self, snd (bind c k self) = self.
Proof.
  intros Hc Hk self. unfold bind.
  specialize (Hc self). destruct (c self) as [[e|a] self']; simpl in *.
  - assumption.
  - rewrite Hk. assumption.
Qed.

Lemma call_frame (layer : t -> Layers.Embedding) (ids : list nat) :
  forall self, snd (call layer ids self) = self.
Proof. reflexivity. Qed.

(** The value of a method run whose first step succeeds without writing. *)
Lemma bind_ok {A B : Type} (c : method A) (k : A -> method B) (a : A) (self : t) :
  c self = (ok a, self) -> bind c k self = k a self.
Proof. intros H. unfold bind. now rewrite H. Qed.

Lemma bind_raise {A B : Type} (c : method A) (k : A -> method B)
    (e : error) (self : t) :
  c self = (raise e, self) -> bind c k self = (raise e, self).
Proof. intros H. unfold bind. now rewrite H. Qed.

Lemma call_value (layer : t -> Layers.Embedding) (ids : list nat) (self : t) :
  call layer ids self = (embedding (Layers.weight (layer self)) ids, self).
Proof. reflexivity. Qed.

(** The row sums of the elementwise product are the dot products of the
    pairs. *)
Lemma dots_of_rows (fu fi : nat -> list R) :
  forall uids iids,
    sum1 (map (fun p => map (fun q => fst q * snd q) (combine (fst p) (snd p)))
              (combine (map fu uids) (map fi iids)))
    = map (fun p => dot (fu (fst p)) (fi (snd p))) (combine uids iids).
Proof.
  unfold sum1.
  induction uids as [|u uids IH]; intros [|i iids]; simpl; try reflexivity.
  now rewrite IH.
Qed.

(** Adding the two bias columns to the row of dot products: row [j] holds
    every dot product, each with the biases of pair [j]. *)
Lemma add_bias_columns (dots : list R) (bu bi : nat -> R) :
  forall uids iids,
    map (fun p => map (fun x => x + snd p) (fst p))
        (combine (map (fun c => map (fun x => x + c) dots) (map bu uids))
                 (map bi iids))
    = map (fun p => map (fun x => x + bu (fst p) + bi (snd p)) dots)
          (combine uids iids).
Proof.
  induction uids as [|u uids IH]; intros [|i iids]; simpl; try reflexivity.
  rewrite IH, map_map. reflexivity.
Qed.

(** A row of a one-column table is the singleton of its scalar. *)
Lemma bias_rows (l : Layers.Embedding) (n : nat) (ids : list nat) :
  table_shape l n 1 ->
  Forall (fun i => (i < n)%nat) ids ->
  map (fun i => nth i (Layers.weight l) []) ids
  = map (fun c => [c]) (map (bias l) ids).
Proof.
  intros [Hn Hrows] Hids. rewrite map_map. apply map_ext_in. intros i Hi.
  rewrite Forall_forall in Hrows, Hids.
  assert (Hlen : length (nth i (Layers.weight l) []) = 1%nat).
  { apply Hrows, nth_In. rewrite Hn. now apply Hids. }
  unfold bias, row.
  destruct (nth i (Layers.weight l) []) as [|x [|y r]]; simpl in *;
    try discriminate.
  reflexivity.
Qed.

Ltac run_step tac := erewrite bind_ok; [| solve [tac] ].

(** On a well-shaped table and in-range indices the four lookups and the four
    reshapes succeed; what is left of [forward] is the arithmetic on the rows
    looked up. *)
Lemma forward_after_lookups (self : t) (num_users num_items : nat)
    (user_ids item_ids : list nat) :
  well_shaped self num_users num_items ->
  Forall (fun u => (u < num_users)%nat) user_ids ->
  Forall (fun i => (i < num_items)%nat) item_ids ->
  forward user_ids item_ids self
  = bind
      (lift (mul
               (map (fun u => nth u (Layers.weight (user_embeddings self)) [])
                    user_ids)
               (map (fun i => nth i (Layers.weight (item_embeddings self)) [])
                    item_ids)))
      (fun prod =>
         bind
           (lift (add (as_row (sum1 prod))
                      (map (fun c => [c]) (map (bias (user_biases self))
                                               user_ids))))
           (fun s =>
              lift (add s
                        (map (fun c => [c]) (map (bias (item_biases self))
                                                 item_ids)))))
      self.
Proof.
  intros (HD & [HUn HUr] & [HIn HIr] & HBU & HBI) Hu Hi.
  pose proof HBU as [HBUn HBUr]. pose proof HBI as [HBIn HBIr].
  assert (Hu' : Forall (fun u => (u < length (Layers.weight (user_embeddings self)))%nat) user_ids)
    by now rewrite HUn.
  assert (Hi' : Forall (fun i => (i < length (Layers.weight (item_embeddings self)))%nat) item_ids)
    by now rewrite HIn.
  assert (Hbu' : Forall (fun u => (u < length (Layers.weight (user_biases self)))%nat) user_ids)
    by now rewrite HBUn.
  assert (Hbi' : Forall (fun i => (i < length (Layers.weight (item_biases self)))%nat) item_ids)
    by now rewrite HBIn.
  unfold forward.
  run_step ltac:(rewrite call_value, embedding_in_range by assumption; reflexivity).
  run_step ltac:(rewrite call_value, embedding_in_range by assumption; reflexivity).
  run_step ltac:(reflexivity).
  run_step ltac:(unfold lift; rewrite view_same_width;
                 [reflexivity | assumption | now apply lookup_rows]).
  run_step ltac:(reflexivity).
  run_step ltac:(unfold lift; rewrite view_same_width;
                 [reflexivity | assumption | now apply lookup_rows]).
  run_step ltac:(rewrite call_value, embedding_in_range by assumption; reflexivity).
  run_step ltac:(unfold lift; rewrite view_same_width;
                 [reflexivity | lia | now apply lookup_rows]).
  run_step ltac:(rewrite call_value, embedding_in_range by assumption; reflexivity).
  run_step ltac:(unfold lift; rewrite view_same_width;
                 [reflexivity | lia | now apply lookup_rows]).
  rewrite (bias_rows _ _ _ HBU Hu), (bias_rows _ _ _ HBI Hi).
  reflexivity.
Qed.

(** On a well-shaped table and a batch of [n] in-range pairs, [forward]
    returns [n] rows of [n] entries: entry [k] of row [j] is the dot product
    of pair [k] plus the two biases of pair [j]. *)
Lemma forward_value (self : t) (num_users num_items : nat)
    (user_ids item_ids : list nat) :
  well_shaped self num_users num_items ->
  length user_ids = length item_ids ->
  Forall (fun u => (u < num_users)%nat) user_ids ->
  Forall (fun i => (i < num_items)%nat) item_ids ->
  forward user_ids item_ids self
  = (ok (map (fun pj =>
                map (fun pk =>
                       dot (row (user_embeddings self) (fst pk))
                           (row (item_embeddings self) (snd pk))
                       + bias (user_biases self) (fst pj)
                       + bias (item_biases self) (snd pj))
                    (combine user_ids item_ids))
             (combine user_ids item_ids)), self).
Proof.
  intros Hs Hlen Hu Hi.
  rewrite (forward_after_lookups self num_users num_items) by assumption.
  destruct Hs as (HD & [HUn HUr] & [HIn HIr] & _).
  run_step ltac:(unfold lift, mul;
                 erewrite (rows_total Rmult (embedding_dim self));
                 [ reflexivity
                 | now rewrite !length_map
                 | apply lookup_rows; [assumption | now rewrite HUn]
                 | apply lookup_rows; [assumption | now rewrite HIn] ]).
  rewrite (dots_of_rows (fun u => nth u (Layers.weight (user_embeddings self)) [])
             (fun i => nth i (Layers.weight (item_embeddings self)) [])).
  run_step ltac:(unfold lift, add; rewrite row_column; reflexivity).
  unfold lift, add. rewrite rows_column_r by (rewrite !length_map; assumption).
  rewrite add_bias_columns. f_equal. f_equal.
  apply map_ext. intros pj. now rewrite map_map.
Qed.

(** The tables [__init__] builds have the shape their sizes announce. *)
Lemma ScaledEmbedding_shape (draw : nat -> nat -> R) (n d : nat) (sp : bool) :
  table_shape (Layers.ScaledEmbedding draw n d sp) n d.
Proof.
  unfold table_shape. simpl. split.
  - now rewrite length_map, length_seq.
  - apply Forall_forall. intros r Hr. apply in_map_iff in Hr.
    destruct Hr as [k [<- _]]. now rewrite length_map, length_seq.
Qed.

Lemma ZeroEmbedding_zero (n d : nat) (sp : bool) :
  table_shape (Layers.ZeroEmbedding n d sp) n d
  /\ Forall (Forall (fun x => x = 0)) (Layers.weight (Layers.ZeroEmbedding n d sp)).
Proof.
  unfold table_shape. simpl. repeat split.
  - apply repeat_length.
  - apply Forall_forall. intros r Hr. apply repeat_spec in Hr. subst r.
    apply repeat_length.
  - apply Forall_forall. intros r Hr. apply repeat_spec in Hr. subst r.
    apply Forall_forall. intros x Hx. now apply repeat_spec in Hx.
Qed.

Lemma init_well_shaped (draw_users draw_items : nat -> nat -> R)
    (num_users num_items d : nat) (sp : option bool) :
  (0 < d)%nat ->
  well_shaped (__init__ draw_users draw_items num_users num_items (Some d) sp)
    num_users num_items.
Proof.
  intros Hd. unfold well_shaped, __init__. simpl.
  repeat split; try assumption;
    try apply ScaledEmbedding_shape; apply ZeroEmbedding_zero.
Qed.

(** C1: for every valid pair of indices [(u, i)], with [u < num_users] and
    [i < num_items], the prediction [forward] returns for the pair is the
    dot product of user embedding [u] and item embedding [i] plus user bias
    [u] plus item bias [i]; with two latent dimensions, user embedding
    [[1; 2]], item embedding [[3; 4]], user bias 1/2 and item bias -1/2 the
    score of [([0], [0])] is 11. *)
Theorem forward_pair_prediction :
  (forall (self : t) (num_users num_items u i : nat),
      well_shaped self num_users num_items ->
      (u < num_users)%nat ->
      (i < num_items)%nat ->
      fst (forward [u] [i] self)
      = ok [[ dot (row (user_embeddings self) u) (row (item_embeddings self) i)
              + bias (user_biases self) u
              + bias (item_biases self) i ]])
  /\ fst (forward [0%nat] [0%nat] scenario) = ok [[11]].
Proof.
  split.
  - intros self nu ni u i Hs Hu Hi.
    rewrite (forward_value self nu ni [u] [i]); [reflexivity | assumption | | |].
    + reflexivity.
    + now constructor.
    + now constructor.
  - cbn. unfold ok. do 3 f_equal. lra.
Qed.

Lemma forward_pair_prediction_witness :
  fst (forward [1%nat] [2%nat] sample_net)
  = ok [[ dot (row (user_embeddings sample_net) 1)
              (row (item_embeddings sample_net) 2)
          + bias (user_biases sample_net) 1
          + bias (item_biases sample_net) 2 ]].
Proof.
  apply (proj1 forward_pair_prediction sample_net 2%nat 3%nat).
  - unfold well_shaped, table_shape. simpl.
    repeat split; try lia; repeat constructor.
  - lia.
  - lia.
Defined.

(** C2: what [forward] returns on [n] pairs.  On equal-length index
    sequences of length [n], all in range, [forward] returns [n] rows of [n]
    reals each, not [n] reals: the sum over the columns is a one-dimensional
    tensor, and adding the bias columns to it spreads it over [n] rows.  On
    the two pairs [(0, 0)] and [(1, 1)] of the two-by-two table the result
    is the matrix [[6; 4]; [7; 5]], whose diagonal holds the two
    predictions 6 and 5. *)
Theorem forward_batch_is_square :
  (forall (self : t) (num_users num_items : nat) (user_ids item_ids : list nat),
      well_shaped self num_users num_items ->
      length user_ids = length item_ids ->
      Forall (fun u => (u < num_users)%nat) user_ids ->
      Forall (fun i => (i < num_items)%nat) item_ids ->
      exists predictions : tensor,
        fst (forward user_ids item_ids self) = ok predictions
        /\ shape predictions (length user_ids) (length user_ids))
  /\ fst (forward [0%nat; 1%nat] [0%nat; 1%nat] batch_net)
     = ok [[6; 4]; [7; 5]].
Proof.
  split.
  - intros self nu ni uids iids Hs Hlen Hu Hi.
    rewrite (forward_value self nu ni uids iids Hs Hlen Hu Hi).
    eexists. split; [reflexivity|].
    assert (Hn : length (combine uids iids) = length uids)
      by (rewrite length_combine, <- Hlen; apply Nat.min_id).
    split.
    + now rewrite length_map.
    + apply Forall_forall. intros r Hr. apply in_map_iff in Hr.
      destruct Hr as [q [<- _]]. now rewrite length_map.
  - cbn. unfold ok. f_equal.
    repeat (f_equal; try lra).
Qed.

Lemma forward_batch_is_square_witness :
  exists predictions : tensor,
    fst (forward [0%nat; 1%nat] [2%nat; 0%nat] sample_net) = ok predictions
    /\ shape predictions (length [0%nat; 1%nat]) (length [0%nat; 1%nat]).
Proof.
  apply (proj1 forward_batch_is_square sample_net 2%nat 3%nat).
  - unfold well_shaped, table_shape. simpl.
    repeat split; try lia; repeat constructor.
  - reflexivity.
  - repeat constructor.
  - repeat constructor.
Defined.

(** C7: on a scorer built for [num_users] users and [num_items] items,
    [forward] fails with [IndexOutOfRange] as soon as some user index is at
    least [num_users] or some item index is at least [num_items]; so it does
    for the user index [num_users] itself. *)
Theorem forward_index_out_of_range (self : t) (num_users num_items : nat) :
  sized self num_users num_items ->
  (forall user_ids item_ids,
      Exists (fun u => (num_users <= u)%nat) user_ids
      \/ Exists (fun i => (num_items <= i)%nat) item_ids ->
      fst (forward user_ids item_ids self) = raise IndexOutOfRange)
  /\ (forall i, fst (forward [num_users] [i] self) = raise IndexOutOfRange).
Proof.
  intros (HUn & HIn & _ & _).
  assert (General : forall user_ids item_ids,
             Exists (fun u => (num_users <= u)%nat) user_ids
             \/ Exists (fun i => (num_items <= i)%nat) item_ids ->
             fst (forward user_ids item_ids self) = raise IndexOutOfRange).
  { intros uids iids Hbad. unfold forward.
    destruct (embedding_cases (Layers.weight (user_embeddings self)) uids)
      as [[Hall Hok] | [_ Hfail]].
    - erewrite bind_ok by (rewrite call_value, Hok; reflexivity).
      erewrite bind_raise; [reflexivity|].
      rewrite call_value, embedding_out_of_range; [reflexivity|].
      rewrite HIn. destruct Hbad as [Hex | Hex]; [|assumption].
      exfalso. rewrite Exists_exists in Hex. destruct Hex as [u [Hin Hle]].
      rewrite Forall_forall in Hall. specialize (Hall u Hin). lia.
    - erewrite bind_raise; [reflexivity|].
      now rewrite call_value, Hfail. }
  split; [exact General|].
  intros i. apply General. left. now constructor.
Qed.

Lemma forward_index_out_of_range_witness :
  fst (forward [0%nat; 2%nat] [1%nat; 1%nat] sample_net) = raise IndexOutOfRange
  /\ fst (forward [1%nat] [3%nat] sample_net) = raise IndexOutOfRange
  /\ fst (forward [2%nat] [0%nat] sample_net) = raise IndexOutOfRange.
Proof.
  assert (Hs : sized sample_net 2%nat 3%nat) by (repeat split).
  split; [|split].
  - apply (proj1 (forward_index_out_of_range sample_net 2%nat 3%nat Hs)).
    left. apply Exists_cons_tl, Exists_cons_hd. lia.
  - apply (proj1 (forward_index_out_of_range sample_net 2%nat 3%nat Hs)).
    right. apply Exists_cons_hd. lia.
  - apply (proj2 (forward_index_out_of_range sample_net 2%nat 3%nat Hs)).
Defined.

(** C8: [forward] leaves the latent parameter table as it found it, on every
    batch: the embeddings and biases after the call are those before it. *)
Theorem forward_frame (self : t) (user_ids item_ids : list nat) :
  snd (forward user_ids item_ids self) = self.
Proof.
  revert self. unfold forward.
  repeat (apply bind_frame; [intros; reflexivity | intros ?]).
  reflexivity.
Qed.

(** C9: after [__init__] every user bias and every item bias is zero, the
    user and the item embedding tables both have [embedding_dim] columns, the
    one dimension the model stores, and that dimension is 32 when the caller
    gives none. *)
Theorem init_table (draw_users draw_items : nat -> nat -> R)
    (num_users num_items : nat) (sp : option bool) :
  (forall d : option nat,
      Forall (Forall (fun x => x = 0))
        (Layers.weight
           (user_biases (__init__ draw_users draw_items num_users num_items d sp)))
      /\ Forall (Forall (fun x => x = 0))
           (Layers.weight
              (item_biases (__init__ draw_users draw_items num_users num_items d sp)))
      /\ table_shape
           (user_biases (__init__ draw_users draw_items num_users num_items d sp))
           num_users 1
      /\ table_shape
           (item_biases (__init__ draw_users draw_items num_users num_items d sp))
           num_items 1
      /\ table_shape
           (user_embeddings (__init__ draw_users draw_items num_users num_items d sp))
           num_users
           (embedding_dim (__init__ draw_users draw_items num_users num_items d sp))
      /\ table_shape
           (item_embeddings (__init__ draw_users draw_items num_users num_items d sp))
           num_items
           (embedding_dim (__init__ draw_users draw_items num_users num_items d sp))
      /\ Layers.embedding_dim
           (user_embeddings (__init__ draw_users draw_items num_users num_items d sp))
         = Layers.embedding_dim
             (item_embeddings (__init__ draw_users draw_items num_users num_items d sp)))
  /\ (forall D : nat,
        embedding_dim
          (__init__ draw_users draw_items num_users num_items (Some D) sp) = D)
  /\ embedding_dim
       (__init__ draw_users draw_items num_users num_items None sp) = 32%nat.
Proof.
  split; [|split; reflexivity].
  intros d. unfold __init__.
  cbn [user_biases item_biases user_embeddings item_embeddings embedding_dim].
  split; [apply ZeroEmbedding_zero|].
  split; [apply ZeroEmbedding_zero|].
  split; [apply ZeroEmbedding_zero|].
  split; [apply ZeroEmbedding_zero|].
  split; [apply ScaledEmbedding_shape|].
  split; [apply ScaledEmbedding_shape|].
  reflexivity.
Qed.

End Scoring.

(** ** The regression loss *)

Section Loss.

Import Torch Losses.
Local Open Scope R_scope.

(** The squared differences the loss averages. *)
Lemma loss_value (observed predicted : variable) :
  requires_grad observed = false ->
  length (data observed) = length (data predicted) ->
  regression_loss observed predicted
  = ok (mean (map (fun d => d ^ 2)
                  (map (fun p => fst p - snd p)
                       (combine (data observed) (data predicted))))).
Proof.
  intros Hg Hlen. unfold regression_loss, assert_no_grad.
  rewrite Hg. simpl. now rewrite pointwise_total.
Qed.

(** A zip read position by position. *)
Lemma combine_indexed {A : Type} (f : R -> R -> A) :
  forall xs ys : list R,
    length xs = length ys ->
    map (fun p => f (fst p) (snd p)) (combine xs ys)
    = map (fun i => f (nth i xs 0) (nth i ys 0)) (seq 0 (length xs)).
Proof.
  induction xs as [|x xs IH]; intros [|y ys] Hlen; simpl in *;
    try discriminate; [reflexivity|].
  f_equal. rewrite <- seq_shift, map_map. apply IH. lia.
Qed.

Lemma rsum_cons (x : R) (xs : list R) : rsum (x :: xs) = x + rsum xs.
Proof. reflexivity. Qed.

Lemma squares_nonneg (xs ys : list R) :
  0 <= rsum (map (fun d => d ^ 2) (map (fun p => fst p - snd p) (combine xs ys))).
Proof.
  induction (combine xs ys) as [|[x y] l IH]; cbn [map fst snd].
  - unfold rsum. simpl. lra.
  - rewrite rsum_cons. apply Rplus_le_le_0_compat; [apply pow2_ge_0 | exact IH].
Qed.

Lemma squares_swap (xs ys : list R) :
  map (fun d => d ^ 2) (map (fun p => fst p - snd p) (combine xs ys))
  = map (fun d => d ^ 2) (map (fun p => fst p - snd p) (combine ys xs)).
Proof.
  revert ys. induction xs as [|x xs IH]; intros [|y ys]; simpl; try reflexivity.
  f_equal; [ring | apply IH].
Qed.

Lemma squares_zero :
  forall xs ys : list R,
    length xs = length ys ->
    rsum (map (fun d => d ^ 2) (map (fun p => fst p - snd p) (combine xs ys))) = 0
    <-> xs = ys.
Proof.
  induction xs as [|x xs IH]; intros [|y ys] Hlen; simpl in Hlen;
    try discriminate; [split; reflexivity|].
  cbn [combine map fst snd]. rewrite rsum_cons.
  pose proof (squares_nonneg xs ys) as Hrest.
  pose proof (pow2_ge_0 (x - y)) as Hsq.
  split.
  - intros Hsum.
    assert (H0 : (x - y) ^ 2 = 0) by lra.
    assert (Hxy : x - y = 0).
    { destruct (Req_dec (x - y) 0) as [Hz|Hnz]; [exact Hz|].
      exfalso. exact (pow_nonzero _ 2 Hnz H0). }
    f_equal; [lra|]. apply IH; [lia | lra].
  - intros Heq. injection Heq as -> Hxs.
    apply (IH ys) in Hxs; [|lia]. rewrite Hxs. ring.
Qed.

Lemma INR_length_pos {A : Type} (xs : list A) :
  (0 < length xs)%nat -> 0 < INR (length xs).
Proof. intros H. now apply (lt_INR 0). Qed.

(** C3: on equal-length non-empty sequences of reals the regression loss is
    the arithmetic mean of the squared differences,
    [mean_i ((observed_i - predicted_i)^2)]; the loss of [[1; 2; 3]] against
    itself is 0 and the loss of [[0; 0]] against [[1; 1]] is 1. *)
Theorem regression_loss_mean_squared_difference :
  (forall (observed predicted : list R) (g : bool),
      length observed = length predicted ->
      (0 < length observed)%nat ->
      regression_loss (constant observed)
        {| data := predicted; requires_grad := g |}
      = ok (rsum (map (fun i => (nth i observed 0 - nth i predicted 0) ^ 2)
                      (seq 0 (length observed)))
            / INR (length observed)))
  /\ regression_loss (constant [1; 2; 3]) (constant [1; 2; 3]) = ok 0
  /\ regression_loss (constant [0; 0]) (constant [1; 1]) = ok 1.
Proof.
  split; [|split].
  - intros observed predicted g Hlen _.
    rewrite loss_value by (simpl; auto). simpl data.
    unfold mean. rewrite map_map.
    rewrite (combine_indexed (fun a b => (a - b) ^ 2)) by assumption.
    now rewrite length_map, length_seq.
  - rewrite loss_value by reflexivity. unfold ok, mean, rsum. simpl.
    f_equal. field.
  - rewrite loss_value by reflexivity. unfold ok, mean, rsum. simpl.
    f_equal. field.
Qed.

Lemma regression_loss_mean_squared_difference_witness :
  regression_loss (constant [5; 3; 4; 2])
    {| data := [4; 3; 2; 2]; requires_grad := true |}
  = ok (rsum (map (fun i => (nth i [5; 3; 4; 2] 0 - nth i [4; 3; 2; 2] 0) ^ 2)
                  (seq 0 (length [5; 3; 4; 2])))
        / INR (length [5; 3; 4; 2])).
Proof.
  apply (proj1 regression_loss_mean_squared_difference).
  - reflexivity.
  - simpl. lia.
Defined.

(** C4: on equal-length non-empty sequences of reals the regression loss
    does not change when its two arguments are swapped, it is non-negative,
    and it is zero exactly when the two sequences are equal element by
    element. *)
Theorem regression_loss_symmetric_nonneg_zero (a b : list R) :
  length a = length b ->
  (0 < length a)%nat ->
  regression_loss (constant a) (constant b)
  = regression_loss (constant b) (constant a)
  /\ exists v : R,
      regression_loss (constant a) (constant b) = ok v
      /\ 0 <= v
      /\ (v = 0 <-> a = b).
Proof.
  intros Hlen Hpos.
  pose proof (INR_length_pos a Hpos) as Hn.
  rewrite !loss_value by (simpl; auto). simpl data.
  split.
  - rewrite (squares_swap a b). unfold mean.
    now rewrite !length_map, !length_combine, Nat.min_comm.
  - eexists. split; [reflexivity|].
    unfold mean. rewrite !length_map, length_combine, <- Hlen, Nat.min_id.
    pose proof (squares_nonneg a b) as Hs.
    pose proof (squares_zero a b Hlen) as Hz.
    split.
    + apply Rmult_le_pos; [exact Hs|].
      left. now apply Rinv_0_lt_compat.
    + rewrite <- Hz. split.
      * intros Hdiv. apply Rmult_integral in Hdiv.
        destruct Hdiv as [H0 | Hinv]; [exact H0|].
        exfalso. pose proof (Rinv_0_lt_compat _ Hn). lra.
      * intros ->. unfold Rdiv. ring.
Qed.

Lemma regression_loss_symmetric_nonneg_zero_witness :
  regression_loss (constant [5; 3; 4]) (constant [4; 3; 2])
  = regression_loss (constant [4; 3; 2]) (constant [5; 3; 4])
  /\ exists v : R,
      regression_loss (constant [5; 3; 4]) (constant [4; 3; 2]) = ok v
      /\ 0 <= v
      /\ (v = 0 <-> [5; 3; 4] = [4; 3; 2]).
Proof.
  apply regression_loss_symmetric_nonneg_zero.
  - reflexivity.
  - simpl. lia.
Defined.

End Loss.

(** ** The splitter *)

Section Split.

Import CrossValidation.
Local Open Scope nat_scope.

(** Selecting every position in order gives the store back. *)
Lemma pick_all {A : Type} (l : list A) :
  flat_map (fun p => match nth_error l p with
                     | Some x => [x]
                     | None => []
                     end) (seq 0 (length l)) = l.
Proof.
  induction l as [|x l IH]; [reflexivity|].
  simpl. f_equal.
  rewrite <- seq_shift, flat_map_concat_map, map_map, <- flat_map_concat_map.
  exact IH.
Qed.

Lemma pick_length {A : Type} (l : list A) (positions : list nat) :
  Forall (fun p => p < length l) positions ->
  length (flat_map (fun p => match nth_error l p with
                             | Some x => [x]
                             | None => []
                             end) positions) = length positions.
Proof.
  induction 1 as [|p ps Hp _ IH]; [reflexivity|].
  simpl. rewrite length_app, IH.
  destruct (nth_error l p) eqn:E; [reflexivity|].
  apply nth_error_None in E. lia.
Qed.

Lemma pick_permutation {A : Type} (l : list A) (ps qs : list nat) :
  Permutation ps qs ->
  Permutation
    (flat_map (fun p => match nth_error l p with
                        | Some x => [x]
                        | None => []
                        end) ps)
    (flat_map (fun p => match nth_error l p with
                        | Some x => [x]
                        | None => []
                        end) qs).
Proof.
  induction 1 as [| p ps qs _ IH | p q ps | ps qs rs _ IH1 _ IH2]; simpl.
  - constructor.
  - now apply Permutation_app_head.
  - rewrite !app_assoc. apply Permutation_app_tail, Permutation_app_comm.
  - now transitivity
      (flat_map (fun p => match nth_error l p with
                          | Some x => [x]
                          | None => []
                          end) qs).
Qed.

(** The inserting shuffle draws permutations. *)
Lemma insert_at_permutation {A : Type} (k : nat) (x : A) (l : list A) :
  Permutation (insert_at k x l) (l ++ [x]).
Proof.
  unfold insert_at. rewrite <- (firstn_skipn k l) at 3.
  rewrite <- app_assoc. apply Permutation_app_head.
  apply Permutation_cons_append.
Qed.

Lemma lcg_permutation_spec (g : Z) (n : nat) :
  Permutation (fst (lcg_permutation g n)) (seq 0 n).
Proof.
  induction n as [|m IH]; [simpl; constructor|].
  cbn [lcg_permutation].
  destruct (lcg_permutation g m) as [p g'] eqn:E. cbn [fst] in *.
  rewrite seq_S. cbn [Nat.add].
  etransitivity; [apply insert_at_permutation|].
  now apply Permutation_app_tail.
Qed.

Variable RandomState : Type.
Variable seeded : Z -> RandomState.
Variable permutation : RandomState -> nat -> list nat * RandomState.

(** A quarter of four interactions is one test interaction; a tie is rounded
    to the even neighbour. *)
Example test_count_scenario :
  test_count (1 # 4) (len scenario) = 1
  /\ round (5 # 2) = 2%Z /\ round (7 # 2) = 4%Z /\ round (13 # 5) = 3%Z.
Proof. repeat split. Qed.

(** What the splitter returns on arguments it accepts. *)
Lemma split_value (S : Interactions) (f : Q) (r : Z) :
  in_unit_interval f = true ->
  len S <> 0 ->
  split RandomState seeded permutation S f r
  = ok (select S (skipn (test_count f (len S))
                        (fst (permutation (seeded r) (len S)))),
        select S (firstn (test_count f (len S))
                         (fst (permutation (seeded r) (len S))))).
Proof.
  intros Hf Hn. unfold split, random_train_test_split.
  rewrite Hf. destruct (Nat.eqb_spec (len S) 0) as [E|_]; [contradiction|].
  simpl. now destruct (permutation (seeded r) (len S)).
Qed.

Lemma NoDup_app_disjoint {A : Type} (l1 l2 : list A) (a : A) :
  NoDup (l1 ++ l2) -> In a l1 -> In a l2 -> False.
Proof.
  induction l1 as [|x l1 IH]; simpl; intros Hnd H1 H2; [contradiction|].
  inversion Hnd as [|? ? Hx Hnd']; subst.
  destruct H1 as [-> | H1].
  - apply Hx, in_or_app. now right.
  - now apply IH.
Qed.


(** A second call on the same generator object draws from the state the
    first call left behind, not from the seed. *)
Lemma reused_generator_advances (S : Interactions) (f : Q) (g : RandomState) :
  fst (call_random_train_test_split RandomState permutation S f 0
         (snd (call_random_train_test_split RandomState permutation S f 0 [g])))
  = fst (random_train_test_split RandomState permutation S f
           (snd (random_train_test_split RandomState permutation S f g))).
Proof.
  unfold call_random_train_test_split. simpl.
  destruct (random_train_test_split RandomState permutation S f g) as [res g'].
  simpl.
  now destruct (random_train_test_split RandomState permutation S f g').
Qed.


Hypothesis permutation_spec :
  forall g n, Permutation (fst (permutation g n)) (seq 0 n).

(** C6: on a non-empty store, a test fraction strictly between 0 and 1 and a
    seed, the train and the test store hold the interactions at two lists of
    positions that share no position and together are exactly the positions
    of the store; the two sizes add up to the size of the store, and train
    followed by test is a rearrangement of the store, no interaction being
    taken twice. *)
Theorem split_partition (S : Interactions) (f : Q) (r : Z) :
  in_unit_interval f = true ->
  len S <> 0 ->
  exists train_positions test_positions : list nat,
    split RandomState seeded permutation S f r
    = ok (select S train_positions, select S test_positions)
    /\ NoDup (train_positions ++ test_positions)
    /\ (forall p, In p train_positions -> In p test_positions -> False)
    /\ (forall p, In p train_positions \/ In p test_positions <-> p < len S)
    /\ len (select S train_positions) = length train_positions
    /\ len (select S test_positions) = length test_positions
    /\ len (select S train_positions) + len (select S test_positions) = len S
    /\ Permutation
         (interactions (select S train_positions)
          ++ interactions (select S test_positions))
         (interactions S).
Proof.
  intros Hf Hn.
  set (k := test_count f (len S)).
  set (p := fst (permutation (seeded r) (len S))).
  pose proof (permutation_spec (seeded r) (len S)) as Hp. fold p in Hp.
  assert (Hsplit : Permutation (skipn k p ++ firstn k p) (seq 0 (len S))).
  { etransitivity; [apply Permutation_app_comm|].
    now rewrite firstn_skipn. }
  assert (Hnd : NoDup (skipn k p ++ firstn k p)).
  { apply (Permutation_NoDup (Permutation_sym Hsplit)), seq_NoDup. }
  assert (Hin : forall q, In q (skipn k p) \/ In q (firstn k p) <-> q < len S).
  { intros q. rewrite <- in_app_iff. split; intros H.
    - apply (Permutation_in _ Hsplit), in_seq in H. lia.
    - apply (Permutation_in _ (Permutation_sym Hsplit)), in_seq. lia. }
  assert (Htrain : len (select S (skipn k p)) = length (skipn k p)).
  { unfold len, select. simpl. apply pick_length, Forall_forall.
    intros q Hq. apply Hin. now left. }
  assert (Htest : len (select S (firstn k p)) = length (firstn k p)).
  { unfold len, select. simpl. apply pick_length, Forall_forall.
    intros q Hq. apply Hin. now right. }
  exists (skipn k p), (firstn k p).
  split; [now apply split_value|].
  split; [exact Hnd|].
  split; [intros q; now apply NoDup_app_disjoint|].
  split; [exact Hin|].
  split; [exact Htrain|].
  split; [exact Htest|].
  split.
  - rewrite Htrain, Htest, <- length_app.
    rewrite (Permutation_length Hsplit). apply length_seq.
  - unfold select. simpl. rewrite <- flat_map_app.
    etransitivity; [apply pick_permutation; exact Hsplit|].
    unfold len. now rewrite pick_all.
Qed.

End Split.

(** With the linear congruential generator, a second split on the same
    generator object puts another interaction into the test store than the
    first: only a generator created anew from the seed repeats the split. *)
Example reused_generator_differs :
  option_map
    (fun p => map CrossValidation.user_index
                  (CrossValidation.interactions (snd p)))
    (match fst (CrossValidation.call_random_train_test_split Z
                  CrossValidation.lcg_permutation CrossValidation.scenario
                  (1 # 4) 0 [CrossValidation.lcg_seeded 42]) with
     | inr p => Some p
     | inl _ => None
     end)
  <> option_map
       (fun p => map CrossValidation.user_index
                     (CrossValidation.interactions (snd p)))
       (match fst (CrossValidation.call_random_train_test_split Z
                     CrossValidation.lcg_permutation CrossValidation.scenario
                     (1 # 4) 0
                     (snd (CrossValidation.call_random_train_test_split Z
                             CrossValidation.lcg_permutation
                             CrossValidation.scenario (1 # 4) 0
                             [CrossValidation.lcg_seeded 42]))) with
        | inr p => Some p
        | inl _ => None
        end).
Proof. lazy. discriminate. Qed.


Lemma split_partition_witness :
  exists train_positions test_positions : list nat,
    CrossValidation.split Z CrossValidation.lcg_seeded
      CrossValidation.lcg_permutation CrossValidation.scenario (1 # 4) 42
    = ok (CrossValidation.select CrossValidation.scenario train_positions,
          CrossValidation.select CrossValidation.scenario test_positions)
    /\ NoDup (train_positions ++ test_positions)
    /\ (forall p, In p train_positions -> In p test_positions -> False)
    /\ (forall p, In p train_positions \/ In p test_positions
                  <-> (p < CrossValidation.len CrossValidation.scenario)%nat)
    /\ CrossValidation.len
         (CrossValidation.select CrossValidation.scenario train_positions)
       = length train_positions
    /\ CrossValidation.len
         (CrossValidation.select CrossValidation.scenario test_positions)
       = length test_positions
    /\ (CrossValidation.len
          (CrossValidation.select CrossValidation.scenario train_positions)
        + CrossValidation.len
            (CrossValidation.select CrossValidation.scenario test_positions)
        = CrossValidation.len CrossValidation.scenario)%nat
    /\ Permutation
         (CrossValidation.interactions
            (CrossValidation.select CrossValidation.scenario train_positions)
          ++ CrossValidation.interactions
               (CrossValidation.select CrossValidation.scenario test_positions))
         (CrossValidation.interactions CrossValidation.scenario).
Proof.
  apply (split_partition Z CrossValidation.lcg_seeded
           CrossValidation.lcg_permutation lcg_permutation_spec
           CrossValidation.scenario (1 # 4) 42).
  - reflexivity.
  - discriminate.
Defined.


(** * Further properties of the scorer *)

Section ScoringOutcomes.

Import Torch BilinearNet.
Local Open Scope R_scope.

Ltac run_step tac := erewrite bind_ok; [| solve [tac] ].

Lemma expand_length {A : Type} (k : nat) (xs : list A) :
  length xs = k \/ length xs = 1%nat -> length (expand k xs) = k.
Proof.
  destruct xs as [|x [|y xs]]; simpl; intros [H | H];
    try (apply repeat_length); try lia; try discriminate.
Qed.

Lemma expand_In {A : Type} (k : nat) (xs : list A) (x : A) :
  In x (expand k xs) -> In x xs.
Proof.
  destruct xs as [|y [|z xs]]; simpl; try tauto.
  intros H. left. symmetry. exact (repeat_spec _ _ _ H).
Qed.

Lemma elementwise_ok {A : Type} (f : A -> A -> result A) (P : A -> Prop) :
  forall xs ys,
    length xs = length ys ->
    (forall x y, In x xs -> In y ys -> exists z, f x y = ok z /\ P z) ->
    exists zs, elementwise f xs ys = ok zs
               /\ length zs = length xs /\ Forall P zs.
Proof.
  induction xs as [|x xs IH]; intros [|y ys] Hlen Hf; simpl in *;
    try discriminate.
  - exists []. repeat split. constructor.
  - destruct (Hf x y) as [z [Hz HP]]; [now left | now left |].
    destruct (IH ys) as [zs [Hzs [Hl HF]]];
      [lia | intros; apply Hf; now right |].
    rewrite Hz, Hzs. simpl. exists (z :: zs).
    repeat split; [simpl; lia | now constructor].
Qed.

(** Operands whose sizes are compatible are combined, and the result has the
    inferred size. *)
Lemma broadcast_ok {A : Type} (f : A -> A -> result A) (P : A -> Prop)
    (xs ys : list A) :
  compatible (length xs) (length ys) ->
  (forall x y, In x xs -> In y ys -> exists z, f x y = ok z /\ P z) ->
  exists zs k, broadcast f xs ys = ok zs
               /\ broadcast_size (length xs) (length ys) = ok k
               /\ length zs = k /\ Forall P zs.
Proof.
  intros Hc Hf.
  destruct (broadcast_size_compatible _ _ Hc) as [k [Hk [Hx Hy]]].
  destruct (elementwise_ok f P (expand k xs) (expand k ys))
    as [zs [Hzs [Hl HF]]].
  - rewrite !expand_length; auto.
  - intros x y Hinx Hiny. apply Hf; eapply expand_In; eassumption.
  - exists zs, k. unfold broadcast. rewrite Hk. simpl.
    repeat split; try assumption.
    rewrite Hl. apply expand_length. auto.
Qed.

Lemma pointwise2_ok (op : R -> R -> R) (a b : tensor) (r1 c1 r2 c2 : nat) :
  shape a r1 c1 ->
  shape b r2 c2 ->
  compatible r1 r2 ->
  compatible c1 c2 ->
  exists (t : tensor) (r c : nat),
    pointwise2 op a b = ok t
    /\ broadcast_size r1 r2 = ok r
    /\ broadcast_size c1 c2 = ok c
    /\ shape t r c.
Proof.
  intros [Ha Hra] [Hb Hrb] Hr Hc.
  destruct (broadcast_size_compatible _ _ Hc) as [c [Hcs _]].
  destruct (broadcast_ok (pointwise op) (fun z => length z = c) a b)
    as [t [r [Ht [Hrs [Hl HF]]]]].
  - now rewrite Ha, Hb.
  - intros x y Hx Hy.
    rewrite Forall_forall in Hra, Hrb.
    destruct (broadcast_ok (fun u v => ok (op u v)) (fun _ => True) x y)
      as [z [k [Hz [Hk [Hlz _]]]]].
    + now rewrite (Hra x Hx), (Hrb y Hy).
    + intros u v _ _. now exists (op u v).
    + exists z. split; [exact Hz|].
      rewrite (Hra x Hx), (Hrb y Hy), Hcs in Hk.
      injection Hk as <-. exact Hlz.
  - exists t, r, c. rewrite Ha, Hb in Hrs. now repeat split.
Qed.

Lemma lookup_shape (weight : tensor) (n d : nat) (ids : list nat) :
  length weight = n ->
  Forall (fun r => length r = d) weight ->
  Forall (fun i => (i < n)%nat) ids ->
  shape (map (fun i => nth i weight []) ids) (length ids) d.
Proof.
  intros Hn Hw Hids. split; [apply length_map|].
  apply lookup_rows; [assumption | now rewrite Hn].
Qed.

Lemma column_shape (cs : list R) :
  shape (map (fun c => [c]) cs) (length cs) 1.
Proof.
  split; [apply length_map|].
  apply Forall_forall. intros r Hr. apply in_map_iff in Hr.
  now destruct Hr as [c [<- _]].
Qed.

(** A batch whose two index sequences cannot be broadcast together is
    refused by the elementwise product. *)
Lemma forward_incompatible_value (self : t) (num_users num_items : nat)
    (user_ids item_ids : list nat) :
  well_shaped self num_users num_items ->
  Forall (fun u => (u < num_users)%nat) user_ids ->
  Forall (fun i => (i < num_items)%nat) item_ids ->
  ~ compatible (length user_ids) (length item_ids) ->
  forward user_ids item_ids self = (raise DimensionMismatch, self).
Proof.
  intros Hs Hu Hi Hbad.
  rewrite (forward_after_lookups self num_users num_items) by assumption.
  apply bind_raise. unfold lift, mul, pointwise2, broadcast. f_equal.
  rewrite !length_map, broadcast_size_incompatible by assumption.
  reflexivity.
Qed.

(** A batch of in-range indices whose two lengths can be broadcast together
    is scored. *)
Lemma forward_compatible_value (self : t) (num_users num_items : nat)
    (user_ids item_ids : list nat) :
  well_shaped self num_users num_items ->
  Forall (fun u => (u < num_users)%nat) user_ids ->
  Forall (fun i => (i < num_items)%nat) item_ids ->
  compatible (length user_ids) (length item_ids) ->
  exists predictions : tensor,
    forward user_ids item_ids self = (ok predictions, self).
Proof.
  intros Hs Hu Hi Hc.
  rewrite (forward_after_lookups self num_users num_items) by assumption.
  destruct Hs as (HD & [HUn HUr] & [HIn HIr] & _).
  destruct (pointwise2_ok Rmult _ _ _ _ _ _
              (lookup_shape _ _ _ user_ids HUn HUr Hu)
              (lookup_shape _ _ _ item_ids HIn HIr Hi) Hc (or_introl eq_refl))
    as [prod [r [c [Hprod [_ [_ [Hpl _]]]]]]].
  run_step ltac:(unfold lift, mul; rewrite Hprod; reflexivity).
  assert (Hrow : shape (as_row (sum1 prod)) 1 r).
  { split; [reflexivity|]. repeat constructor.
    unfold sum1. now rewrite length_map. }
  destruct (pointwise2_ok Rplus _ _ _ _ _ _ Hrow
              (column_shape (map (bias (user_biases self)) user_ids))
              (or_intror (or_introl eq_refl))
              (or_intror (or_intror eq_refl)))
    as [s [r' [c' [Hs [Hr' [_ Hss]]]]]].
  rewrite broadcast_size_one_l in Hr'. injection Hr' as <-.
  run_step ltac:(unfold lift, add; rewrite Hs; reflexivity).
  rewrite length_map in Hss.
  destruct (pointwise2_ok Rplus _ _ _ _ _ _ Hss
              (column_shape (map (bias (item_biases self)) item_ids)))
    as [out [r'' [c'' [Hout _]]]].
  - now rewrite length_map.
  - right. right. reflexivity.
  - exists out. unfold lift, add. now rewrite Hout.
Qed.

(** A batch with an index past its table is refused by the lookup. *)
Lemma forward_bad_index_value (self : t) (num_users num_items : nat)
    (user_ids item_ids : list nat) :
  sized self num_users num_items ->
  Exists (fun u => (num_users <= u)%nat) user_ids
  \/ Exists (fun i => (num_items <= i)%nat) item_ids ->
  forward user_ids item_ids self = (raise IndexOutOfRange, self).
Proof.
  intros (HUn & HIn & _ & _) Hbad. unfold forward.
  destruct (embedding_cases (Layers.weight (user_embeddings self)) user_ids)
    as [[Hall Hok] | [_ Hfail]].
  - erewrite bind_ok by (rewrite call_value, Hok; reflexivity).
    apply bind_raise.
    rewrite call_value, embedding_out_of_range; [reflexivity|].
    rewrite HIn. destruct Hbad as [Hex | Hex]; [|assumption].
    exfalso. rewrite Exists_exists in Hex. destruct Hex as [u [Hin Hle]].
    rewrite Forall_forall in Hall. specialize (Hall u Hin). lia.
  - apply bind_raise. now rewrite call_value, Hfail.
Qed.

Lemma well_shaped_sized (self : t) (num_users num_items : nat) :
  well_shaped self num_users num_items -> sized self num_users num_items.
Proof.
  intros (_ & [HUn _] & [HIn _] & [HBUn _] & [HBIn _]). now repeat split.
Qed.

(** Every index is in range, or one is not. *)
Lemma in_range_or_not (n : nat) (ids : list nat) :
  Forall (fun i => (i < n)%nat) ids \/ Exists (fun i => (n <= i)%nat) ids.
Proof.
  induction ids as [|i ids [IH | IH]].
  - left. constructor.
  - destruct (Nat.lt_ge_cases i n) as [Hlt | Hge].
    + left. now constructor.
    + right. now apply Exists_cons_hd.
  - right. now apply Exists_cons_tl.
Qed.

Lemma compatible_dec (n m : nat) : compatible n m \/ ~ compatible n m.
Proof. unfold compatible. lia. Qed.

(** X1: on a well-shaped table, a batch whose indices are all in range but
    whose user and item sequences differ in length, neither holding exactly
    one index, makes [forward] fail with a shape error: no prediction is
    returned for the pairs that do line up. *)
Theorem forward_length_mismatch (self : t) (num_users num_items : nat)
    (user_ids item_ids : list nat) :
  well_shaped self num_users num_items ->
  Forall (fun u => (u < num_users)%nat) user_ids ->
  Forall (fun i => (i < num_items)%nat) item_ids ->
  length user_ids <> length item_ids ->
  length user_ids <> 1%nat ->
  length item_ids <> 1%nat ->
  fst (forward user_ids item_ids self) = raise DimensionMismatch.
Proof.
  intros Hs Hu Hi Hlen Hu1 Hi1.
  rewrite (forward_incompatible_value self num_users num_items);
    try assumption; [reflexivity|].
  unfold compatible. tauto.
Qed.

Lemma forward_length_mismatch_witness :
  fst (forward [0%nat; 1%nat] [2%nat; 0%nat; 1%nat] sample_net)
  = raise DimensionMismatch.
Proof.
  apply (forward_length_mismatch sample_net 2%nat 3%nat).
  - unfold well_shaped, table_shape. simpl.
    repeat split; try lia; repeat constructor.
  - repeat constructor.
  - repeat constructor.
  - simpl. lia.
  - simpl. lia.
  - simpl. lia.
Defined.

(** X2: on a well-shaped table [forward] returns a tensor exactly when
    every user index is below [num_users], every item index is below
    [num_items] and the two sequences have lengths that broadcast together:
    equal lengths, or one of the two sequences holding a single index. *)
Theorem forward_succeeds_iff (self : t) (num_users num_items : nat)
    (user_ids item_ids : list nat) :
  well_shaped self num_users num_items ->
  (exists predictions : tensor,
      fst (forward user_ids item_ids self) = ok predictions)
  <-> Forall (fun u => (u < num_users)%nat) user_ids
      /\ Forall (fun i => (i < num_items)%nat) item_ids
      /\ (length user_ids = length item_ids
          \/ length user_ids = 1%nat \/ length item_ids = 1%nat).
Proof.
  intros Hs. split.
  - intros [predictions Hok].
    destruct (in_range_or_not num_users user_ids) as [Hu | Hu].
    2:{ rewrite (forward_bad_index_value self num_users num_items) in Hok;
          [discriminate | now apply well_shaped_sized | now left]. }
    destruct (in_range_or_not num_items item_ids) as [Hi | Hi].
    2:{ rewrite (forward_bad_index_value self num_users num_items) in Hok;
          [discriminate | now apply well_shaped_sized | now right]. }
    destruct (compatible_dec (length user_ids) (length item_ids)) as [Hc | Hc].
    + now repeat split.
    + rewrite (forward_incompatible_value self num_users num_items) in Hok
        by assumption.
      discriminate.
  - intros (Hu & Hi & Hc).
    destruct (forward_compatible_value self num_users num_items
                user_ids item_ids Hs Hu Hi Hc) as [predictions Hp].
    exists predictions. now rewrite Hp.
Qed.

Lemma forward_succeeds_iff_witness :
  (exists predictions : tensor,
      fst (forward [1%nat; 0%nat] [2%nat] sample_net) = ok predictions)
  <-> Forall (fun u => (u < 2)%nat) [1%nat; 0%nat]
      /\ Forall (fun i => (i < 3)%nat) [2%nat]
      /\ (length [1%nat; 0%nat] = length [2%nat]
          \/ length [1%nat; 0%nat] = 1%nat \/ length [2%nat] = 1%nat).
Proof.
  apply (forward_succeeds_iff sample_net 2%nat 3%nat).
  unfold well_shaped, table_shape. simpl.
  repeat split; try lia; repeat constructor.
Defined.

End ScoringOutcomes.

Section ScoringBatches.

Import Torch BilinearNet.
Local Open Scope R_scope.

Lemma combine_app_same {A B : Type} :
  forall (a1 a2 : list A) (b1 b2 : list B),
    length a1 = length b1 ->
    combine (a1 ++ a2) (b1 ++ b2) = combine a1 b1 ++ combine a2 b2.
Proof.
  induction a1 as [|x a1 IH]; intros a2 [|y b1] b2 Hlen; simpl in *;
    try discriminate; [reflexivity|].
  f_equal. apply IH. lia.
Qed.

(** X3: where the predictions sit in what [forward] returns for a batch.
    On [n] in-range pairs, entry [k] of row [j] of the result is the dot
    product of pair [k] plus the user and item bias of pair [j]; so the
    prediction of pair [k] is entry [k] of row [k], and the other entries
    mix the embeddings of one pair with the biases of another. *)
Theorem forward_batch_entries (self : t) (num_users num_items : nat)
    (user_ids item_ids : list nat) :
  well_shaped self num_users num_items ->
  length user_ids = length item_ids ->
  Forall (fun u => (u < num_users)%nat) user_ids ->
  Forall (fun i => (i < num_items)%nat) item_ids ->
  exists predictions : tensor,
    fst (forward user_ids item_ids self) = ok predictions
    /\ forall j k : nat,
        (j < length user_ids)%nat ->
        (k < length user_ids)%nat ->
        nth k (nth j predictions []) 0
        = dot (row (user_embeddings self) (nth k user_ids 0%nat))
              (row (item_embeddings self) (nth k item_ids 0%nat))
          + bias (user_biases self) (nth j user_ids 0%nat)
          + bias (item_biases self) (nth j item_ids 0%nat).
Proof.
  intros Hs Hlen Hu Hi.
  rewrite (forward_value self num_users num_items) by assumption.
  eexists. split; [reflexivity|].
  intros j k Hj Hk.
  assert (Hn : length (combine user_ids item_ids) = length user_ids)
    by (rewrite length_combine, <- Hlen; apply Nat.min_id).
  set (row_of := fun pj : nat * nat =>
         map (fun pk : nat * nat =>
                dot (row (user_embeddings self) (fst pk))
                    (row (item_embeddings self) (snd pk))
                + bias (user_biases self) (fst pj)
                + bias (item_biases self) (snd pj))
             (combine user_ids item_ids)).
  rewrite (nth_indep _ [] (row_of (0%nat, 0%nat)))
    by (rewrite length_map; lia).
  rewrite (map_nth row_of). unfold row_of.
  set (entry := fun pk : nat * nat =>
         dot (row (user_embeddings self) (fst pk))
             (row (item_embeddings self) (snd pk))
         + bias (user_biases self)
             (fst (nth j (combine user_ids item_ids) (0%nat, 0%nat)))
         + bias (item_biases self)
             (snd (nth j (combine user_ids item_ids) (0%nat, 0%nat)))).
  rewrite (nth_indep _ 0 (entry (0%nat, 0%nat)))
    by (rewrite length_map; lia).
  rewrite (map_nth entry). unfold entry.
  rewrite !combine_nth by assumption. reflexivity.
Qed.

Lemma forward_batch_entries_witness :
  exists predictions : tensor,
    fst (forward [0%nat; 1%nat] [0%nat; 1%nat] batch_net) = ok predictions
    /\ forall j k : nat,
        (j < length [0%nat; 1%nat])%nat ->
        (k < length [0%nat; 1%nat])%nat ->
        nth k (nth j predictions []) 0
        = dot (row (user_embeddings batch_net) (nth k [0%nat; 1%nat] 0%nat))
              (row (item_embeddings batch_net) (nth k [0%nat; 1%nat] 0%nat))
          + bias (user_biases batch_net) (nth j [0%nat; 1%nat] 0%nat)
          + bias (item_biases batch_net) (nth j [0%nat; 1%nat] 0%nat).
Proof.
  apply (forward_batch_entries batch_net 2%nat 2%nat).
  - unfold well_shaped, table_shape. simpl.
    repeat split; try lia; repeat constructor.
  - reflexivity.
  - repeat constructor.
  - repeat constructor.
Defined.

(** X4: a prediction reads only the rows of its own user and item.  Two
    tables of one shape that agree on the embedding and bias rows of the
    batch's users and items give the same predictions, whatever their other
    rows hold. *)
Theorem forward_reads_batch_rows (self other : t) (num_users num_items : nat)
    (user_ids item_ids : list nat) :
  well_shaped self num_users num_items ->
  well_shaped other num_users num_items ->
  length user_ids = length item_ids ->
  Forall (fun u => (u < num_users)%nat) user_ids ->
  Forall (fun i => (i < num_items)%nat) item_ids ->
  (forall u, In u user_ids ->
     row (user_embeddings self) u = row (user_embeddings other) u
     /\ row (user_biases self) u = row (user_biases other) u) ->
  (forall i, In i item_ids ->
     row (item_embeddings self) i = row (item_embeddings other) i
     /\ row (item_biases self) i = row (item_biases other) i) ->
  fst (forward user_ids item_ids self) = fst (forward user_ids item_ids other).
Proof.
  intros Hs Ho Hlen Hu Hi Hrows_u Hrows_i.
  rewrite (forward_value self num_users num_items) by assumption.
  rewrite (forward_value other num_users num_items) by assumption.
  cbn [fst]. f_equal. apply map_ext_in. intros [uj ij] Hj. cbn [fst snd].
  destruct (Hrows_u uj (in_combine_l _ _ _ _ Hj)) as [_ Hub].
  destruct (Hrows_i ij (in_combine_r _ _ _ _ Hj)) as [_ Hib].
  apply map_ext_in. intros [uk ik] Hk. cbn [fst snd].
  destruct (Hrows_u uk (in_combine_l _ _ _ _ Hk)) as [Hue _].
  destruct (Hrows_i ik (in_combine_r _ _ _ _ Hk)) as [Hie _].
  unfold bias. now rewrite Hue, Hie, Hub, Hib.
Qed.

(** The sample table after a step that rewrote the rows of user 1 and of
    items 0 and 1 only. *)
Lemma forward_reads_batch_rows_witness :
  fst (forward [0%nat] [2%nat] sample_net)
  = fst (forward [0%nat] [2%nat]
           {| embedding_dim := 2;
              user_embeddings :=
                {| Layers.num_embeddings := 2; Layers.embedding_dim := 2;
                   Layers.sparse := false;
                   Layers.weight := [row (user_embeddings sample_net) 0;
                                     [7; 8]] |};
              item_embeddings :=
                {| Layers.num_embeddings := 3; Layers.embedding_dim := 2;
                   Layers.sparse := false;
                   Layers.weight := [[1; 1]; [2; 2];
                                     row (item_embeddings sample_net) 2] |};
              user_biases :=
                {| Layers.num_embeddings := 2; Layers.embedding_dim := 1;
                   Layers.sparse := false; Layers.weight := [[0]; [3]] |};
              item_biases :=
                {| Layers.num_embeddings := 3; Layers.embedding_dim := 1;
                   Layers.sparse := false;
                   Layers.weight := [[4]; [5]; [0]] |} |}).
Proof.
  apply (forward_reads_batch_rows _ _ 2%nat 3%nat).
  - unfold well_shaped, table_shape. simpl.
    repeat split; try lia; repeat constructor.
  - unfold well_shaped, table_shape. simpl.
    repeat split; try lia; repeat constructor.
  - reflexivity.
  - repeat constructor.
  - repeat constructor.
  - intros u [<- | []]. split; reflexivity.
  - intros i [<- | []]. split; reflexivity.
Defined.

End ScoringBatches.

(** * Further properties of the regression loss *)

Section LossProperties.

Import Torch Losses.
Local Open Scope R_scope.

Lemma squares_length (xs ys : list R) :
  length xs = length ys ->
  length (map (fun d => d ^ 2)
              (map (fun p => fst p - snd p) (combine xs ys))) = length xs.
Proof.
  intros Hlen.
  rewrite !length_map, length_combine, <- Hlen. apply Nat.min_id.
Qed.

Lemma rsum_app (xs ys : list R) : rsum (xs ++ ys) = rsum xs + rsum ys.
Proof.
  induction xs as [|x xs IH]; cbn [app].
  - unfold rsum at 2. simpl. ring.
  - rewrite !rsum_cons, IH. ring.
Qed.

Lemma rsum_permutation (xs ys : list R) :
  Permutation xs ys -> rsum xs = rsum ys.
Proof.
  induction 1 as [| x xs ys _ IH | x y xs | xs ys zs _ IH1 _ IH2].
  - reflexivity.
  - rewrite !rsum_cons, IH. reflexivity.
  - rewrite !rsum_cons. ring.
  - now rewrite IH1.
Qed.

Lemma pointwise_incompatible (op : R -> R -> R) (xs ys : list R) :
  ~ compatible (length xs) (length ys) ->
  pointwise op xs ys = raise DimensionMismatch.
Proof.
  intros H. unfold pointwise, broadcast.
  now rewrite broadcast_size_incompatible.
Qed.

Lemma pointwise_compatible (op : R -> R -> R) (xs ys : list R) :
  compatible (length xs) (length ys) ->
  exists zs : list R, pointwise op xs ys = ok zs.
Proof.
  intros Hc.
  destruct (broadcast_ok (fun u v => ok (op u v)) (fun _ => True) xs ys Hc)
    as [zs [k [Hzs _]]].
  - intros u v _ _. now exists (op u v).
  - now exists zs.
Qed.

(** X6: with an observed tensor that carries no gradient, the loss of two
    non-empty one-dimensional tensors is returned exactly when their sizes
    broadcast together: equal sizes, or one of the two holding a single
    element.  Other sizes make the subtraction fail with a shape error. *)
Theorem regression_loss_same_size (observed predicted : variable) :
  requires_grad observed = false ->
  (length (data observed) <> length (data predicted) ->
   length (data observed) <> 1%nat ->
   length (data predicted) <> 1%nat ->
   regression_loss observed predicted = raise DimensionMismatch)
  /\ ((0 < length (data observed))%nat ->
      (0 < length (data predicted))%nat ->
      (exists v : R, regression_loss observed predicted = ok v)
      <-> (length (data observed) = length (data predicted)
           \/ length (data observed) = 1%nat
           \/ length (data predicted) = 1%nat)).
Proof.
  intros Hg.
  assert (Hbad : ~ compatible (length (data observed)) (length (data predicted)) ->
                 regression_loss observed predicted = raise DimensionMismatch).
  { intros Hc. unfold regression_loss, assert_no_grad. rewrite Hg. simpl.
    now rewrite pointwise_incompatible. }
  split.
  - intros H1 H2 H3. apply Hbad. unfold compatible. tauto.
  - intros _ _. split.
    + intros [v Hv].
      destruct (compatible_dec (length (data observed))
                  (length (data predicted))) as [Hc | Hc]; [exact Hc|].
      rewrite (Hbad Hc) in Hv. discriminate.
    + intros Hc. unfold regression_loss, assert_no_grad. rewrite Hg. simpl.
      destruct (pointwise_compatible Rminus _ _ Hc) as [zs ->]. simpl.
      eexists. reflexivity.
Qed.

Lemma regression_loss_same_size_witness :
  (length (data (constant [5; 3; 4])) <> length [4; 3] ->
   length (data (constant [5; 3; 4])) <> 1%nat ->
   length [4; 3] <> 1%nat ->
   regression_loss (constant [5; 3; 4])
     {| data := [4; 3]; requires_grad := true |} = raise DimensionMismatch)
  /\ ((exists v : R,
         regression_loss (constant [5; 3; 4])
           {| data := [4]; requires_grad := true |} = ok v)
      <-> (length (data (constant [5; 3; 4])) = length [4]
           \/ length (data (constant [5; 3; 4])) = 1%nat
           \/ length [4] = 1%nat)).
Proof.
  split.
  - apply (regression_loss_same_size (constant [5; 3; 4])
             {| data := [4; 3]; requires_grad := true |}).
    reflexivity.
  - apply (regression_loss_same_size (constant [5; 3; 4])
             {| data := [4]; requires_grad := true |}).
    + reflexivity.
    + simpl. lia.
    + simpl. lia.
Defined.

(** X7: the loss does not depend on the order of the ratings: if the
    (observed, predicted) pairs of one call are a rearrangement of the pairs
    of another, the two losses are equal. *)
Theorem regression_loss_order_independent (a b a' b' : list R) :
  length a = length b ->
  length a' = length b' ->
  Permutation (combine a b) (combine a' b') ->
  regression_loss (constant a) (constant b)
  = regression_loss (constant a') (constant b').
Proof.
  intros Hlen Hlen' Hperm.
  rewrite !loss_value by (simpl; auto). simpl data. f_equal. unfold mean.
  f_equal.
  - apply rsum_permutation. now do 2 apply Permutation_map.
  - f_equal. rewrite !length_map. now apply Permutation_length.
Qed.

Lemma regression_loss_order_independent_witness :
  regression_loss (constant [5; 3; 4]) (constant [4; 1; 2])
  = regression_loss (constant [4; 5; 3]) (constant [2; 4; 1]).
Proof.
  apply regression_loss_order_independent.
  - reflexivity.
  - reflexivity.
  - simpl. apply (Permutation_cons_app [(4, 2)] [(3, 1)]). simpl.
    apply (Permutation_cons_app [(4, 2)] []). simpl.
    apply Permutation_refl.
Defined.

(** X8: the loss of two batches taken together is the mean of the two batch
    losses weighted by the batch sizes. *)
Theorem regression_loss_concat (a1 b1 a2 b2 : list R) :
  length a1 = length b1 ->
  length a2 = length b2 ->
  (0 < length a1)%nat ->
  (0 < length a2)%nat ->
  exists v1 v2 v : R,
    regression_loss (constant a1) (constant b1) = ok v1
    /\ regression_loss (constant a2) (constant b2) = ok v2
    /\ regression_loss (constant (a1 ++ a2)) (constant (b1 ++ b2)) = ok v
    /\ v = (INR (length a1) * v1 + INR (length a2) * v2)
           / INR (length a1 + length a2).
Proof.
  intros H1 H2 Hp1 Hp2.
  pose proof (INR_length_pos a1 Hp1) as Hn1.
  pose proof (INR_length_pos a2 Hp2) as Hn2.
  rewrite !loss_value by (simpl; rewrite ?length_app; auto). simpl data.
  do 3 eexists. split; [reflexivity|]. split; [reflexivity|].
  split; [reflexivity|].
  unfold mean. rewrite combine_app_same, !map_app by assumption.
  rewrite rsum_app, length_app, !squares_length by assumption.
  rewrite plus_INR. field. lra.
Qed.

Lemma regression_loss_concat_witness :
  exists v1 v2 v : R,
    regression_loss (constant [5; 3]) (constant [4; 1]) = ok v1
    /\ regression_loss (constant [4]) (constant [2]) = ok v2
    /\ regression_loss (constant ([5; 3] ++ [4])) (constant ([4; 1] ++ [2]))
       = ok v
    /\ v = (INR (length [5; 3]) * v1 + INR (length [4]) * v2)
           / INR (length [5; 3] + length [4]).
Proof.
  apply regression_loss_concat.
  - reflexivity.
  - reflexivity.
  - simpl. lia.
  - simpl. lia.
Defined.

Lemma squares_bounded (e : R) (a b : list R) :
  Forall2 (fun o p => Rabs (o - p) <= e) a b ->
  rsum (map (fun d => d ^ 2) (map (fun p => fst p - snd p) (combine a b)))
  <= INR (length a) * e ^ 2.
Proof.
  induction 1 as [|o p a b Hop _ IH].
  - unfold rsum. simpl. lra.
  - cbn [combine map fst snd]. rewrite rsum_cons.
    change (length (o :: a)) with (S (length a)). rewrite S_INR.
    assert (Hsq : (o - p) ^ 2 <= e ^ 2).
    { rewrite <- pow2_abs. apply pow_incr. split; [apply Rabs_pos | exact Hop]. }
    lra.
Qed.

(** X9: if every prediction is within [e] of its observed rating, the loss
    is at most [e^2]. *)
Theorem regression_loss_bounded (e : R) (a b : list R) :
  Forall2 (fun o p => Rabs (o - p) <= e) a b ->
  (0 < length a)%nat ->
  exists v : R,
    regression_loss (constant a) (constant b) = ok v /\ v <= e ^ 2.
Proof.
  intros Hall Hpos.
  pose proof (Forall2_length Hall) as Hlen.
  pose proof (INR_length_pos a Hpos) as Hn.
  rewrite loss_value by (simpl; auto). simpl data.
  eexists. split; [reflexivity|].
  unfold mean. rewrite squares_length by assumption.
  pose proof (squares_bounded e a b Hall) as Hb.
  apply (Rmult_le_reg_r (INR (length a))); [exact Hn|].
  unfold Rdiv. rewrite Rmult_assoc, Rinv_l, Rmult_1_r
    by (apply Rgt_not_eq; exact Hn).
  rewrite (Rmult_comm (e ^ 2)). exact Hb.
Qed.

Lemma regression_loss_bounded_witness :
  exists v : R,
    regression_loss (constant [5; 3; 4]) (constant [4; 3; 5]) = ok v
    /\ v <= 1 ^ 2.
Proof.
  apply regression_loss_bounded.
  - apply Forall2_cons; [|apply Forall2_cons; [|apply Forall2_cons;
                                                   [|apply Forall2_nil]]].
    + replace (5 - 4) with 1 by ring. rewrite Rabs_R1. lra.
    + replace (3 - 3) with 0 by ring. rewrite Rabs_R0. lra.
    + replace (4 - 5) with (- (1)) by ring. rewrite Rabs_Ropp, Rabs_R1. lra.
  - simpl. lia.
Defined.

Lemma squares_affine (k c : R) :
  forall a b : list R,
    rsum (map (fun d => d ^ 2)
              (map (fun p => fst p - snd p)
                   (combine (map (fun x => k * x + c) a)
                            (map (fun x => k * x + c) b))))
    = k ^ 2 * rsum (map (fun d => d ^ 2)
                        (map (fun p => fst p - snd p) (combine a b))).
Proof.
  induction a as [|x a IH]; intros [|y b]; cbn [combine map fst snd];
    try (unfold rsum; simpl; ring).
  rewrite !rsum_cons, IH. ring.
Qed.

(** X10: rescaling the rating scale by [k] and shifting it by [c], on the
    observed and on the predicted side alike, multiplies the loss by [k^2]:
    a shift alone leaves it unchanged. *)
Theorem regression_loss_affine (k c : R) (a b : list R) :
  length a = length b ->
  (0 < length a)%nat ->
  exists v : R,
    regression_loss (constant a) (constant b) = ok v
    /\ regression_loss (constant (map (fun x => k * x + c) a))
         (constant (map (fun x => k * x + c) b)) = ok (k ^ 2 * v).
Proof.
  intros Hlen Hpos.
  rewrite !loss_value by (simpl; rewrite ?length_map; auto). simpl data.
  eexists. split; [reflexivity|]. f_equal.
  unfold mean. rewrite squares_affine.
  rewrite !squares_length by (rewrite ?length_map; assumption).
  rewrite length_map. unfold Rdiv. ring.
Qed.

Lemma regression_loss_affine_witness :
  exists v : R,
    regression_loss (constant [5; 3; 4]) (constant [4; 1; 2]) = ok v
    /\ regression_loss (constant (map (fun x => 2 * x + 1) [5; 3; 4]))
         (constant (map (fun x => 2 * x + 1) [4; 1; 2])) = ok (2 ^ 2 * v).
Proof.
  apply regression_loss_affine.
  - reflexivity.
  - simpl. lia.
Defined.

End LossProperties.
